(** * dqcs coin ledger: a shallow embedding of [server.js]

    The server keeps one document per player in the [players] collection
    and appends one document per balance change to [playerEvents].  The
    four handlers ([/register], [/partyResult], [/spend], [/coins]) are
    embedded as functions over an explicit store.

    Modelling conventions.
    - A request field that may be [undefined] is an [option]; strings are
      byte strings, numbers are integers ([Z]).  Request fields carry the
      types the handlers expect (phone, name, gameId, reason: strings;
      score, coins, amount: integers).
    - JavaScript truthiness is written out: [undefined], the empty string
      and [0] are falsy.
    - A player document is a record with one optional component per field
      the server ever writes.  [set] with [merge] takes the keys of its
      data as field names, so the score fields are top-level fields whose
      names contain dots; [snap.get] takes a string as a dotted path
      through nested maps.
    - [runTransaction] collects the writes of its body and commits them
      all or not at all; one transaction runs at a time.
    - The store accepts every non-empty document id and every field name
      the handlers write.
    - [serverTimestamp()] is the commit time, an input of every handler. *)

From Stdlib Require Import ZArith List String Ascii Bool Lia.
From stdpp Require Import gmap strings list fin_maps.

Local Open Scope string_scope.
Local Open Scope Z_scope.

(** ** JavaScript truthiness and [||] on optional strings and numbers *)

Module Js.

Definition truthy_str (x : option string) : bool :=
  match x with
  | Some (String _ _) => true
  | _ => false
  end.

Definition truthy_num (x : option Z) : bool :=
  match x with
  | Some n => negb (n =? 0)
  | None => false
  end.

(** [x || d] on strings *)
Definition or_str (x : option string) (d : string) : string :=
  match x with
  | Some (String c r) => String c r
  | _ => d
  end.

(** [x || d] on numbers; also [x ? x : d] *)
Definition or_num (x : option Z) (d : Z) : Z :=
  match x with
  | Some n => if n =? 0 then d else n
  | None => d
  end.

End Js.

(** ** Key normalizer

    [const normalizePhone = (p = "") => p.replace(/[^0-9+]/g, "")] *)

Definition is_digit (c : ascii) : bool :=
  let n := N_of_ascii c in ((48 <=? n) && (n <=? 57))%N.

(** The characters outside the class [[^0-9+]]. *)
Definition is_phone_char (c : ascii) : bool :=
  is_digit c || Ascii.eqb c "+".

(** [p.replace(/[^0-9+]/g, "")]: every character of the negated class is
    replaced by the empty string. *)
Fixpoint replace_non_phone (p : string) : string :=
  match p with
  | EmptyString => EmptyString
  | String c r =>
      if is_phone_char c then String c (replace_non_phone r)
      else replace_non_phone r
  end.

(** The default parameter [p = ""] applies when the argument is
    [undefined]. *)
Definition normalizePhone (p : option string) : string :=
  replace_non_phone (default "" p).

(** The normalizer as the specification words it: digits are kept, and a
    [+] is kept only where it leads the string. *)
Fixpoint keep_digits (s : string) : string :=
  match s with
  | EmptyString => EmptyString
  | String c r => if is_digit c then String c (keep_digits r) else keep_digits r
  end.

Definition normalize_leading_plus (s : string) : string :=
  match s with
  | String "+" r => String "+" (keep_digits r)
  | _ => keep_digits s
  end.

(** ** Documents and the store *)

(** The two top-level fields named [partyScores.<gameId>.lastScore] and
    [partyScores.<gameId>.bestScore], always written together. *)
Module Scores.
Record t := mk { lastScore : Z; bestScore : Z }.
End Scores.

(** A document of the [players] collection.  A field is [None] until a
    write sets it. *)
Module Player.
Record t := mk {
  name : option string;
  phone : option string;
  lastSource : option string;
  updatedAt : option nat;
  coins : option Z;
  partyScores : gmap string Scores.t
}.
Definition empty : t := mk None None None None None ∅.
End Player.

(** A document of the [playerEvents] collection.  [/spend] writes no
    [score] field. *)
Module Event.
Record t := mk {
  phone : string;
  source : string;
  score : option Z;
  amount : Z;
  createdAt : nat
}.
End Event.

(** [players] is keyed by document id; [events] lists the documents of
    [playerEvents] in creation order ([events.doc()] picks a fresh id). *)
Record store := Store {
  players : gmap string Player.t;
  events : list Event.t
}.

Definition empty_store : store := Store ∅ [].

(** What the store client throws: [doc("")] is not a resource path,
    [update] needs the document to exist, and [snap.get] needs a
    well-formed field path. *)
Inductive store_error :=
| InvalidResourcePath
| NotFound
| InvalidFieldPath.

(** [collection.doc(documentPath)] *)
Definition doc (documentPath : string) : store_error + string :=
  match documentPath with
  | EmptyString => inl InvalidResourcePath
  | _ => inr documentPath
  end.

(** [FieldValue.increment(n)]: a missing field counts as [0]. *)
Definition increment (n : Z) (old : option Z) : option Z :=
  Some (default 0 old + n).

(** The writes a transaction body queues. *)
Inductive write :=
| set_merge (docRef : string) (fields : Player.t → Player.t)
| update (docRef : string) (fields : Player.t → Player.t)
| set_event (e : Event.t).

Definition apply_write (w : write) (st : store) : store_error + store :=
  match w with
  | set_merge docRef fields =>
      let old := default Player.empty (players st !! docRef) in
      inr (Store (<[docRef := fields old]> (players st)) (events st))
  | update docRef fields =>
      match players st !! docRef with
      | Some old => inr (Store (<[docRef := fields old]> (players st)) (events st))
      | None => inl NotFound
      end
  | set_event e => inr (Store (players st) (events st ++ [e]))
  end.

Fixpoint apply_writes (ws : list write) (st : store) : store_error + store :=
  match ws with
  | [] => inr st
  | w :: ws' =>
      match apply_write w st with
      | inl e => inl e
      | inr st' => apply_writes ws' st'
      end
  end.

(** [db.runTransaction(body)]: the body reads the store and queues writes;
    the commit applies all of them, or none when one fails. *)
Definition runTransaction {A} (body : store → list write * A) (st : store)
  : store_error + (store * A) :=
  let '(ws, a) := body st in
  match apply_writes ws st with
  | inl e => inl e
  | inr st' => inr (st', a)
  end.

(** ** Responses *)

Inductive response :=
| json_ok                          (* res.json({ ok: true }) *)
| json_coins (n : Z)               (* res.json({ coins: n }) *)
| bad_request (error : string)     (* res.status(400).json({ error }) *)
| unauthorized                     (* res.status(401).json({ error: "unauthorized" }) *)
| server_error (e : store_error).  (* catch (e): res.status(500).json({ error: e.message }) *)

(** ** Request bodies *)

Module RegisterBody.
Record t := mk { name : option string; phone : option string }.
End RegisterBody.

Module PartyBody.
Record t := mk {
  phone : option string;
  gameId : option string;
  score : option Z;
  coins : option Z
}.
End PartyBody.

Module SpendBody.
Record t := mk {
  phone : option string;
  amount : option Z;
  reason : option string
}.
End SpendBody.

(** ** Handlers *)

(** The string a field path is given as is refused when it is empty,
    holds one of [* ~ / [ ]] or two dots in a row, or starts or ends with
    a dot. *)
Definition is_reserved_char (c : ascii) : bool :=
  Ascii.eqb c "*" || Ascii.eqb c "~" || Ascii.eqb c "/"
  || Ascii.eqb c "[" || Ascii.eqb c "]".

Fixpoint has_reserved_char (s : string) : bool :=
  match s with
  | EmptyString => false
  | String c r => is_reserved_char c || has_reserved_char r
  end.

Fixpoint has_double_dot (s : string) : bool :=
  match s with
  | EmptyString => false
  | String c r =>
      match r with
      | EmptyString => false
      | String c' _ => (Ascii.eqb c "." && Ascii.eqb c' ".") || has_double_dot r
      end
  end.

Definition starts_with_dot (s : string) : bool :=
  match s with
  | EmptyString => false
  | String c _ => Ascii.eqb c "."
  end.

Fixpoint ends_with_dot (s : string) : bool :=
  match s with
  | EmptyString => false
  | String c r =>
      match r with
      | EmptyString => Ascii.eqb c "."
      | String _ _ => ends_with_dot r
      end
  end.

Definition valid_field_path (fieldPath : string) : bool :=
  Js.truthy_str (Some fieldPath)
  && negb (has_double_dot fieldPath)
  && negb (starts_with_dot fieldPath)
  && negb (ends_with_dot fieldPath)
  && negb (has_reserved_char fieldPath).

(** [`partyScores.${gameId}.bestScore`] *)
Definition bestPath (gameId : string) : string :=
  "partyScores." +:+ gameId +:+ ".bestScore".

(** [snap.get(bestPath)] on an existing document.  The string is read as
    a path: checked, split at its dots and followed through nested maps.
    The score fields of a document are top-level fields whose names
    contain the dots, and no field of a player document is a map, so the
    path, when it is accepted, finds nothing. *)
Definition snap_get_best (d : Player.t) (gameId : string)
  : store_error + option Z :=
  if valid_field_path (bestPath gameId) then inr None
  else inl InvalidFieldPath.

(** [snap.get("coins")] *)
Definition snap_get_coins (snap : option Player.t) : option Z :=
  match snap with
  | Some d => Player.coins d
  | None => None
  end.

(** [app.post("/register")] *)
Definition register (now : nat) (body : RegisterBody.t) (st : store)
  : store * response :=
  if negb (Js.truthy_str (RegisterBody.phone body)) then
    (st, bad_request "phone required")
  else
    let phoneNorm := normalizePhone (RegisterBody.phone body) in
    match doc phoneNorm with
    | inl e => (st, server_error e)
    | inr docRef =>
        match
          apply_write
            (set_merge docRef (λ d,
               Player.mk (Some (Js.or_str (RegisterBody.name body) ""))
                         (Some phoneNorm)
                         (Some "registration")
                         (Some now)
                         (Player.coins d)
                         (Player.partyScores d)))
            st
        with
        | inl e => (st, server_error e)
        | inr st' => (st', json_ok)
        end
    end.

(** [app.post("/partyResult")] *)
Definition partyResult (now : nat) (body : PartyBody.t) (st : store)
  : store * response :=
  if negb (Js.truthy_str (PartyBody.phone body))
     || negb (Js.truthy_str (PartyBody.gameId body)) then
    (st, bad_request "phone and gameId required")
  else
    let gameId := default "" (PartyBody.gameId body) in
    let score := PartyBody.score body in
    let coins := PartyBody.coins body in
    let phoneNorm := normalizePhone (PartyBody.phone body) in
    match doc phoneNorm with
    | inl e => (st, server_error e)
    | inr docRef =>
        match
          runTransaction (λ tx,
            let snap := players tx !! docRef in
            (* snap.exists && snap.get(bestPath) ? snap.get(bestPath) : 0 *)
            let currentBest :=
              match snap with
              | Some d =>
                  match snap_get_best d gameId with
                  | inl e => inl e
                  | inr v => inr (Js.or_num v 0)
                  end
              | None => inr 0
              end in
            match currentBest with
            | inl e => ([], inl e)   (* thrown before any write is queued *)
            | inr currentBest =>
                let newBest := Z.max currentBest (Js.or_num score 0) in
                ([ set_merge docRef (λ d,
                     Player.mk (Player.name d)
                               (Player.phone d)
                               (Some ("party:" +:+ gameId))
                               (Some now)
                               (increment (Js.or_num coins 0) (Player.coins d))
                               (<[gameId := Scores.mk (Js.or_num score 0) newBest]>
                                  (Player.partyScores d)));
                   set_event
                     (Event.mk phoneNorm ("party:" +:+ gameId)
                               (Some (Js.or_num score 0)) (Js.or_num coins 0) now) ],
                 inr tt)
            end) st
        with
        | inl e => (st, server_error e)
        | inr (_, inl e) => (st, server_error e)
        | inr (st', inr _) => (st', json_ok)
        end
    end.

(** [app.post("/spend")] *)
Definition spend (now : nat) (body : SpendBody.t) (st : store)
  : store * response :=
  if negb (Js.truthy_str (SpendBody.phone body))
     || negb (Js.truthy_num (SpendBody.amount body)) then
    (st, bad_request "phone and amount required")
  else
    let amount := default 0 (SpendBody.amount body) in
    let reason := SpendBody.reason body in
    let phoneNorm := normalizePhone (SpendBody.phone body) in
    match doc phoneNorm with
    | inl e => (st, server_error e)
    | inr docRef =>
        match
          runTransaction (λ tx,
            let snap := players tx !! docRef in
            let balance := Js.or_num (snap_get_coins snap) 0 in
            if balance <? amount then ([], false)
            else
              ([ update docRef (λ d,
                   Player.mk (Player.name d)
                             (Player.phone d)
                             (Some (Js.or_str reason "spend"))
                             (Some now)
                             (increment (- amount) (Player.coins d))
                             (Player.partyScores d));
                 set_event
                   (Event.mk phoneNorm (Js.or_str reason "spend")
                             None (- amount) now) ],
               true)) st
        with
        | inl e => (st, server_error e)
        | inr (st', ok) =>
            if negb ok then (st', bad_request "insufficient funds")
            else (st', json_ok)
        end
    end.

(** [app.get("/coins")]; the argument is [req.query.phone]. *)
Definition getCoins (phone : option string) (st : store) : store * response :=
  let phoneNorm := normalizePhone phone in
  if negb (Js.truthy_str (Some phoneNorm)) then
    (st, bad_request "phone required")
  else
    match doc phoneNorm with
    | inl e => (st, server_error e)
    | inr docRef =>
        let snap := players st !! docRef in
        (st, json_coins (match snap with
                         | Some _ => Js.or_num (snap_get_coins snap) 0
                         | None => 0
                         end))
    end.

(** [requireSecret]: open when [BIN_SECRET] is unset or empty; otherwise
    the header [x-bin-secret], or else the query parameter [secret], must
    be the secret. *)
Definition requireSecret (BIN_SECRET x_bin_secret query_secret : option string)
    (next : store → store * response) (st : store) : store * response :=
  if negb (Js.truthy_str BIN_SECRET) then next st
  else
    let provided :=
      if Js.truthy_str x_bin_secret then x_bin_secret else query_secret in
    if bool_decide (provided = BIN_SECRET) then next st
    else (st, unauthorized).

(** ** Runs of the server *)

Inductive call :=
| Register (body : RegisterBody.t)
| PartyResult (body : PartyBody.t)
| Spend (body : SpendBody.t)
| Coins (phone : option string).

Definition handle (now : nat) (c : call) (st : store) : store * response :=
  match c with
  | Register body => register now body st
  | PartyResult body => partyResult now body st
  | Spend body => spend now body st
  | Coins phone => getCoins phone st
  end.

(** The store after a sequence of requests, each with its commit time. *)
Fixpoint run (cs : list (nat * call)) (st : store) : store :=
  match cs with
  | [] => st
  | (now, c) :: cs' => run cs' (fst (handle now c st))
  end.

(** ** Observations used in the statements *)

(** The balance of a key: the [coins] field, [0] when the document or the
    field is missing. *)
Definition balance (st : store) (key : string) : Z :=
  match players st !! key with
  | Some d => default 0 (Player.coins d)
  | None => 0
  end.

(** What an event adds to the balance of a key. *)
Definition credit (key : string) (e : Event.t) : Z :=
  if decide (Event.phone e = key) then Event.amount e else 0.

(** The sum of the amounts of the events of a key. *)
Fixpoint ledger_sum (key : string) (evs : list Event.t) : Z :=
  match evs with
  | [] => 0
  | e :: evs' => credit key e + ledger_sum key evs'
  end.

(** The balances are the sums of the event log. *)
Definition consistent (st : store) : Prop :=
  ∀ key, balance st key = ledger_sum key (events st).

Definition scores_of (st : store) (key gameId : string) : option Scores.t :=
  match players st !! key with
  | Some d => Player.partyScores d !! gameId
  | None => None
  end.

Definition best_score (st : store) (key gameId : string) : option Z :=
  Scores.bestScore <$> scores_of st key gameId.

Definition last_score (st : store) (key gameId : string) : option Z :=
  Scores.lastScore <$> scores_of st key gameId.

(** An award commits when phone and game are given, the key is not
    empty and, if the key has a document, the game makes a well-formed
    field path. *)
Definition award_commits (body : PartyBody.t) (st : store) : bool :=
  Js.truthy_str (PartyBody.phone body)
  && Js.truthy_str (PartyBody.gameId body)
  && Js.truthy_str (Some (normalizePhone (PartyBody.phone body)))
  && match players st !! normalizePhone (PartyBody.phone body) with
     | Some _ => valid_field_path (bestPath (default "" (PartyBody.gameId body)))
     | None => true
     end.

(** The score [score || 0] a request submits for a key and game, when it
    is an award for them that commits. *)
Definition award_score (st : store) (key gameId : string) (c : call)
  : option Z :=
  match c with
  | PartyResult body =>
      if award_commits body st
         && bool_decide (PartyBody.gameId body = Some gameId)
         && bool_decide (normalizePhone (PartyBody.phone body) = key)
      then Some (Js.or_num (PartyBody.score body) 0)
      else None
  | _ => None
  end.

(** The maximum of a list of scores, [None] for the empty list. *)
Fixpoint max_score (l : list Z) : option Z :=
  match l with
  | [] => None
  | x :: l' =>
      match max_score l' with
      | Some m => Some (Z.max x m)
      | None => Some x
      end
  end.

(** ** The routes *)

(** [app.get("/health")] is not behind [requireSecret]; the four other
    routes are. *)
Inductive route :=
| Health
| Api (c : call).

(** What the gate reads of a request, and the route it asks for. *)
Record request := Request {
  x_bin_secret : option string;   (* req.headers["x-bin-secret"] *)
  query_secret : option string;   (* req.query.secret *)
  target : route
}.

(** [req.headers["x-bin-secret"] || req.query.secret] *)
Definition provided (req : request) : option string :=
  if Js.truthy_str (x_bin_secret req) then x_bin_secret req
  else query_secret req.

(** The application: one request against the store, with
    [process.env.BIN_SECRET] as configured. *)
Definition serve (BIN_SECRET : option string) (now : nat) (req : request)
    (st : store) : store * response :=
  match target req with
  | Health => (st, json_ok)
  | Api c =>
      requireSecret BIN_SECRET (x_bin_secret req) (query_secret req)
                    (handle now c) st
  end.

Fixpoint serve_all (BIN_SECRET : option string) (reqs : list (nat * request))
    (st : store) : store :=
  match reqs with
  | [] => st
  | (now, req) :: reqs' =>
      serve_all BIN_SECRET reqs' (fst (serve BIN_SECRET now req st))
  end.

(** ** Further observations *)

(** Every character is a digit or a [+]. *)
Fixpoint all_phone_chars (s : string) : bool :=
  match s with
  | EmptyString => true
  | String c r => is_phone_char c && all_phone_chars r
  end.

Definition canonical_key (k : string) : Prop :=
  k ≠ "" ∧ all_phone_chars k = true.

(** Document ids are canonical keys, a [phone] field holds the id of its
    document, and every event belongs to a stored player. *)
Definition well_keyed (st : store) : Prop :=
  (∀ k d, players st !! k = Some d →
          canonical_key k
          ∧ (Player.phone d = None ∨ Player.phone d = Some k))
  ∧ (∀ e, e ∈ events st →
          canonical_key (Event.phone e)
          ∧ is_Some (players st !! Event.phone e)).

(** The request is no award of a negative amount of coins. *)
Definition credits_nonneg (r : route) : bool :=
  match r with
  | Api (PartyResult body) => 0 <=? Js.or_num (PartyBody.coins body) 0
  | _ => true
  end.

Definition balances_nonneg (st : store) : Prop :=
  ∀ key, 0 ≤ balance st key.

(** In every game the last score is at most the best score. *)
Definition last_le_best (st : store) : Prop :=
  ∀ key gameId sc, scores_of st key gameId = Some sc →
                   Scores.lastScore sc ≤ Scores.bestScore sc.

(** ** Truthiness lemmas *)

Lemma or_num_zero x : Js.or_num x 0 = default 0 x.
Proof. destruct x as [n|]; simpl; [destruct (Z.eqb_spec n 0)|]; congruence. Qed.

Lemma truthy_str_nonempty x :
  Js.truthy_str x = true ↔ ∃ s, x = Some s ∧ s ≠ "".
Proof.
  split.
  - destruct x as [[|c r]|]; simpl; try discriminate. eauto.
  - intros ([|c r] & -> & Hs); [congruence | reflexivity].
Qed.

(** ** Normalizer lemmas *)

Lemma replace_non_phone_filter s :
  list_ascii_of_string (replace_non_phone s)
  = List.filter is_phone_char (list_ascii_of_string s).
Proof.
  induction s as [|c r IH]; simpl; [reflexivity|].
  destruct (is_phone_char c); simpl; congruence.
Qed.

Lemma replace_non_phone_idem s :
  replace_non_phone (replace_non_phone s) = replace_non_phone s.
Proof.
  induction s as [|c r IH]; simpl; [reflexivity|].
  destruct (is_phone_char c) eqn:Hc; simpl; [rewrite Hc|]; congruence.
Qed.

Lemma replace_non_phone_all s :
  Forall (λ c, is_phone_char c = true)
         (list_ascii_of_string (replace_non_phone s)).
Proof.
  rewrite replace_non_phone_filter.
  apply List.Forall_forall. intros c Hc.
  apply List.filter_In in Hc. tauto.
Qed.

(** C4, as stated, fails: a [+] that does not lead the string is kept by
    the source, where the specification's wording drops it. *)
Lemma normalizePhone_keeps_inner_plus :
  normalizePhone (Some "1+2") = "1+2"
  ∧ normalize_leading_plus "1+2" = "12"
  ∧ normalizePhone (Some "1+2") ≠ normalize_leading_plus "1+2".
Proof. repeat split. discriminate. Qed.

(** C4 (amended): the normalizer removes exactly the characters that are
    neither a digit nor a [+] (a [+] is kept wherever it stands), keeping
    the others in order; it is a function defined on every string (and on
    a missing argument); "+1 (555) 123-4567" and "15551234567" normalize
    to "+15551234567" and "15551234567". *)
Theorem normalizePhone_strips :
  (∀ s : string,
     list_ascii_of_string (normalizePhone (Some s))
     = List.filter is_phone_char (list_ascii_of_string s))
  ∧ normalizePhone None = ""
  ∧ normalizePhone (Some "+1 (555) 123-4567") = "+15551234567"
  ∧ normalizePhone (Some "15551234567") = "15551234567".
Proof.
  split; [intros s; apply replace_non_phone_filter|].
  repeat split.
Qed.

(** C9: normalizing a normalized key returns it unchanged. *)
Theorem normalizePhone_idempotent (s : option string) :
  normalizePhone (Some (normalizePhone s)) = normalizePhone s.
Proof. unfold normalizePhone. simpl. apply replace_non_phone_idem. Qed.

(** ** Store lemmas *)

Lemma doc_nonempty k : k ≠ "" → doc k = inr k.
Proof. destruct k; [congruence | reflexivity]. Qed.

(** A request the gate turns away never reaches a handler. *)
Lemma requireSecret_cases secret header query next st :
  requireSecret secret header query next st = next st
  ∨ requireSecret secret header query next st = (st, unauthorized).
Proof.
  unfold requireSecret.
  destruct (negb _); [auto|]. destruct (bool_decide _); auto.
Qed.

Lemma normalizePhone_nonempty p :
  normalizePhone p ≠ "" → Js.truthy_str p = true.
Proof. destruct p as [[|c r]|]; cbn; congruence. Qed.

Lemma balance_snap st k :
  Js.or_num (snap_get_coins (players st !! k)) 0 = balance st k.
Proof.
  rewrite or_num_zero. unfold balance, snap_get_coins.
  destruct (players st !! k); reflexivity.
Qed.

Lemma balance_insert st evs' k d k' :
  balance (Store (<[k := d]> (players st)) evs') k'
  = if decide (k = k') then default 0 (Player.coins d) else balance st k'.
Proof.
  unfold balance; simpl. rewrite lookup_insert.
  destruct (decide (k = k')); reflexivity.
Qed.

(** ** [/spend] *)

(** The four ways [/spend] ends once phone and amount are truthy and the
    key is not empty. *)
Lemma spend_unfold now body st p a :
  SpendBody.phone body = Some p →
  SpendBody.amount body = Some a →
  a ≠ 0 →
  normalizePhone (Some p) ≠ "" →
  let key := normalizePhone (Some p) in
  spend now body st =
    if balance st key <? a then (st, bad_request "insufficient funds")
    else match players st !! key with
         | None => (st, server_error NotFound)
         | Some d =>
             (Store (<[key := Player.mk (Player.name d) (Player.phone d)
                                 (Some (Js.or_str (SpendBody.reason body) "spend"))
                                 (Some now)
                                 (Some (default 0 (Player.coins d) - a))
                                 (Player.partyScores d)]> (players st))
                    (events st ++ [Event.mk key (Js.or_str (SpendBody.reason body) "spend")
                                            None (- a) now]),
              json_ok)
         end.
Proof.
  intros Hp Ha Ha0 Hk key. unfold spend. rewrite Hp, Ha.
  rewrite (normalizePhone_nonempty _ Hk). simpl Js.truthy_num.
  destruct (Z.eqb_spec a 0) as [|_]; [contradiction|]. simpl negb. simpl orb.
  cbv iota. fold key. rewrite (doc_nonempty key Hk).
  unfold runTransaction. rewrite balance_snap. simpl default.
  destruct (balance st key <? a); [reflexivity|].
  simpl apply_writes. destruct (players st !! key) as [d|]; [|reflexivity].
  simpl. unfold increment. reflexivity.
Qed.

(** C1: with a key that is not empty and a positive amount, [/spend]
    answers ok exactly when the balance is at least the amount (and then
    debits it); otherwise it answers "insufficient funds" and returns the
    store as it was: same player documents, no event appended. *)
Theorem spend_succeeds_iff now st body p a :
  SpendBody.phone body = Some p →
  normalizePhone (Some p) ≠ "" →
  SpendBody.amount body = Some a →
  0 < a →
  let key := normalizePhone (Some p) in
  (snd (spend now body st) = json_ok ↔ a ≤ balance st key)
  ∧ (a ≤ balance st key →
       balance (fst (spend now body st)) key = balance st key - a)
  ∧ (balance st key < a →
       spend now body st = (st, bad_request "insufficient funds"))
  ∧ (snd (spend now body st) = bad_request "insufficient funds" →
       fst (spend now body st) = st).
Proof.
  intros Hp Hk Ha Hpos key.
  rewrite (spend_unfold now body st p a Hp Ha ltac:(lia) Hk). fold key.
  destruct (Z.ltb_spec (balance st key) a) as [Hlt|Hge].
  - simpl. repeat split; try (intros; lia); try discriminate; reflexivity.
  - assert (Hd : ∃ d, players st !! key = Some d).
    { unfold balance in Hge. destruct (players st !! key); [eauto | lia]. }
    destruct Hd as [d Hd]. rewrite Hd. simpl.
    repeat split; try (intros; lia); try discriminate.
    intros _. rewrite balance_insert. rewrite decide_True by reflexivity.
    unfold balance. rewrite Hd. reflexivity.
Qed.

Lemma spend_succeeds_iff_witness :
  let st := Store {[ "15551234567" := Player.mk None None None None (Some 7) ∅ ]} [] in
  let body := SpendBody.mk (Some "1 (555) 123-4567") (Some 8) None in
  spend 1%nat body st = (st, bad_request "insufficient funds").
Proof.
  intros st body.
  apply (spend_succeeds_iff 1%nat st body "1 (555) 123-4567" 8);
    [reflexivity | discriminate | reflexivity | lia | vm_compute; reflexivity].
Defined.

(** C3, as stated, fails: a negative amount is truthy, passes the guard
    and the balance check, and is credited. *)
Lemma spend_negative_amount_accepted :
  let st := run [(1%nat, PartyResult (PartyBody.mk (Some "1") (Some "run")
                                                  (Some 0) (Some 10)))]
                empty_store in
  let r := spend 2%nat (SpendBody.mk (Some "1") (Some (-5)) None) st in
  balance st "1" = 10
  ∧ snd r = json_ok
  ∧ balance (fst r) "1" = 15
  ∧ events (fst r) = (events st ++ [Event.mk "1" "spend" None 5 2%nat])%list.
Proof. vm_compute. repeat split. Qed.

(** C3 (amended): when the amount is missing or zero, [/spend] answers
    400 "phone and amount required" and returns the store as it was. *)
Theorem spend_rejects_missing_or_zero now st body :
  SpendBody.amount body = None ∨ SpendBody.amount body = Some 0 →
  spend now body st = (st, bad_request "phone and amount required").
Proof.
  intros [H|H]; unfold spend; rewrite H; simpl; rewrite orb_true_r; reflexivity.
Qed.

Lemma spend_rejects_missing_or_zero_witness :
  spend 3%nat (SpendBody.mk (Some "15551234567") (Some 0) (Some "hat")) empty_store
  = (empty_store, bad_request "phone and amount required").
Proof.
  apply (spend_rejects_missing_or_zero 3%nat empty_store); right; reflexivity.
Defined.

(** ** [/register] *)

Lemma register_unfold now body st :
  Js.truthy_str (RegisterBody.phone body) = true →
  normalizePhone (RegisterBody.phone body) ≠ "" →
  let key := normalizePhone (RegisterBody.phone body) in
  let old := default Player.empty (players st !! key) in
  register now body st =
    (Store (<[key := Player.mk (Some (Js.or_str (RegisterBody.name body) ""))
                               (Some key) (Some "registration") (Some now)
                               (Player.coins old) (Player.partyScores old)]>
              (players st))
           (events st),
     json_ok).
Proof.
  intros Hp Hk key old. unfold register. rewrite Hp. simpl negb. cbv iota.
  fold key. rewrite (doc_nonempty key Hk). reflexivity.
Qed.

Lemma register_ok_inv now body st st' :
  register now body st = (st', json_ok) →
  Js.truthy_str (RegisterBody.phone body) = true
  ∧ normalizePhone (RegisterBody.phone body) ≠ "".
Proof.
  unfold register.
  destruct (Js.truthy_str (RegisterBody.phone body)); simpl; [|discriminate].
  destruct (normalizePhone (RegisterBody.phone body)); simpl; [discriminate|].
  intros _. split; [reflexivity | discriminate].
Qed.

(** C6 at the failing input: a phone made of letters passes the [!phone]
    guard, normalizes to the empty key, and the request ends in the
    [catch] branch (status 500) instead of 400 "phone required"; the store
    is returned as it was. *)
Theorem register_letters_only_phone now st name :
  normalizePhone (Some "abc") = ""
  ∧ register now (RegisterBody.mk name (Some "abc")) st
    = (st, server_error InvalidResourcePath)
  ∧ getCoins (Some "abc") st = (st, bad_request "phone required").
Proof. repeat split. Qed.

(** [/register] never touches the event log, a balance or a score. *)
Lemma register_preserves now body st :
  let st' := fst (register now body st) in
  events st' = events st
  ∧ (∀ k, balance st' k = balance st k)
  ∧ (∀ k g, scores_of st' k g = scores_of st k g).
Proof.
  intros st'. subst st'.
  destruct (Js.truthy_str (RegisterBody.phone body)) eqn:Hp;
    [|unfold register; rewrite Hp; simpl; auto].
  destruct (decide (normalizePhone (RegisterBody.phone body) = "")) as [Hk|Hk];
    [unfold register; rewrite Hp, Hk; simpl; auto|].
  rewrite (register_unfold now body st Hp Hk). simpl.
  set (key := normalizePhone (RegisterBody.phone body)).
  split; [reflexivity|]. split.
  - intros k. rewrite balance_insert.
    destruct (decide (key = k)) as [<-|]; [|reflexivity].
    simpl. unfold balance. destruct (players st !! key); reflexivity.
  - intros k g. unfold scores_of. simpl. rewrite lookup_insert.
    destruct (decide (key = k)) as [<-|]; [|reflexivity].
    simpl. destruct (players st !! key); simpl; [reflexivity|].
    apply lookup_empty.
Qed.

(** C7: an accepted registration writes one player document, at the
    normalized key, in which name, phone, lastSource and updatedAt are the
    new values and coins and partyScores are those of the document before
    (missing and empty when there was none); every other document and the
    event log are as before, so no balance and no score changes. *)
Theorem register_frame now body st st' :
  register now body st = (st', json_ok) →
  let key := normalizePhone (RegisterBody.phone body) in
  let old := default Player.empty (players st !! key) in
  players st' !! key
    = Some (Player.mk (Some (Js.or_str (RegisterBody.name body) ""))
                      (Some key) (Some "registration") (Some now)
                      (Player.coins old) (Player.partyScores old))
  ∧ (∀ k, k ≠ key → players st' !! k = players st !! k)
  ∧ events st' = events st
  ∧ (∀ k, balance st' k = balance st k)
  ∧ (∀ k g, scores_of st' k g = scores_of st k g).
Proof.
  intros H key old. destruct (register_ok_inv _ _ _ _ H) as [Hp Hk].
  pose proof (register_preserves now body st) as Hpres.
  rewrite H in Hpres. simpl in Hpres.
  rewrite (register_unfold now body st Hp Hk) in H. fold key old in H.
  injection H as <-. simpl.
  split; [apply lookup_insert_eq|].
  split; [intros k Hne; apply lookup_insert_ne; congruence|].
  exact Hpres.
Qed.

Lemma register_frame_witness :
  let st := Store {[ "5550100" := Player.mk None None (Some "party:run") (Some 1%nat)
                                           (Some 5) {[ "run" := Scores.mk 10 10 ]} ]} [] in
  let st' := fst (register 2%nat (RegisterBody.mk (Some "Ann") (Some "555-0100")) st) in
  players st' !! "5550100"
    = Some (Player.mk (Some "Ann") (Some "5550100") (Some "registration") (Some 2%nat)
                      (Some 5) {[ "run" := Scores.mk 10 10 ]}).
Proof.
  intros st st'.
  apply (register_frame 2%nat (RegisterBody.mk (Some "Ann") (Some "555-0100")) st st').
  reflexivity.
Defined.

(** ** [/coins] *)

(** C8: the balance query returns the store as it was (no document
    changed, no event appended); for a key that is not empty it answers
    the balance of the key, which is [0] when the key has no document. *)
Theorem getCoins_reads_balance st phone :
  fst (getCoins phone st) = st
  ∧ (normalizePhone phone ≠ "" →
       snd (getCoins phone st) = json_coins (balance st (normalizePhone phone)))
  ∧ (normalizePhone phone ≠ "" →
       players st !! normalizePhone phone = None →
       snd (getCoins phone st) = json_coins 0).
Proof.
  unfold getCoins.
  destruct (normalizePhone phone) as [|c r] eqn:Hk; simpl.
  - repeat split; congruence.
  - unfold balance.
    destruct (players st !! String c r) as [d|] eqn:Hd; simpl.
    + rewrite or_num_zero. repeat split; congruence.
    + repeat split; reflexivity.
Qed.

Lemma getCoins_reads_balance_witness :
  let st := Store {[ "15551234567" := Player.mk None None None None (Some 7) ∅ ]} [] in
  snd (getCoins (Some "1 (555) 123-4567") st) = json_coins 7
  ∧ snd (getCoins (Some "42") st) = json_coins 0.
Proof.
  intros st. split.
  - apply (getCoins_reads_balance st (Some "1 (555) 123-4567")). discriminate.
  - apply (getCoins_reads_balance st (Some "42")); [discriminate | reflexivity].
Defined.

(** ** [/partyResult] *)

Lemma truthy_str_some p : p ≠ "" → Js.truthy_str (Some p) = true.
Proof. destruct p; [congruence | reflexivity]. Qed.

Lemma award_commits_inv body st :
  award_commits body st = true →
  ∃ g, PartyBody.gameId body = Some g ∧ g ≠ ""
       ∧ Js.truthy_str (PartyBody.phone body) = true
       ∧ normalizePhone (PartyBody.phone body) ≠ ""
       ∧ (players st !! normalizePhone (PartyBody.phone body) = None
          ∨ valid_field_path (bestPath g) = true).
Proof.
  unfold award_commits. intros H.
  apply andb_prop in H as [H Hv]. apply andb_prop in H as [H Hk].
  apply andb_prop in H as [Hp Hg].
  apply truthy_str_nonempty in Hg as (g & Hg & Hne).
  apply truthy_str_nonempty in Hk as (k & [= <-] & Hk).
  exists g. rewrite Hg in Hv. simpl in Hv.
  repeat split; try assumption.
  destruct (players st !! normalizePhone (PartyBody.phone body)); auto.
Qed.

(** An award that commits writes the scores [score || 0] and
    [max 0 (score || 0)], adds [coins || 0] and appends one event. *)
Lemma partyResult_unfold now body st :
  award_commits body st = true →
  let key := normalizePhone (PartyBody.phone body) in
  let g := default "" (PartyBody.gameId body) in
  let old := default Player.empty (players st !! key) in
  let s := Js.or_num (PartyBody.score body) 0 in
  let n := Js.or_num (PartyBody.coins body) 0 in
  partyResult now body st =
    (Store (<[key := Player.mk (Player.name old) (Player.phone old)
                               (Some ("party:" +:+ g)) (Some now)
                               (Some (default 0 (Player.coins old) + n))
                               (<[g := Scores.mk s (Z.max 0 s)]>
                                  (Player.partyScores old))]>
              (players st))
           (events st ++ [Event.mk key ("party:" +:+ g) (Some s) n now]),
     json_ok).
Proof.
  intros Hc key g old s n.
  destruct (award_commits_inv body st Hc) as (g' & Hg & Hne & Hp & Hk & Hv).
  unfold partyResult. rewrite Hp, Hg. fold key.
  rewrite (truthy_str_some g' Hne). simpl negb. simpl orb. cbv iota.
  rewrite (doc_nonempty key Hk). unfold runTransaction, snap_get_best.
  subst g old. rewrite Hg. change (default "" (Some g')) with g'.
  fold key in Hv.
  destruct (players st !! key) as [d|] eqn:Hd.
  - destruct Hv as [Hv|Hv]; [discriminate|]. rewrite Hv.
    cbn [apply_writes apply_write players events]. rewrite Hd. reflexivity.
  - cbn [apply_writes apply_write players events]. rewrite Hd. reflexivity.
Qed.

Lemma partyResult_reject now body st :
  award_commits body st = false →
  fst (partyResult now body st) = st ∧ snd (partyResult now body st) ≠ json_ok.
Proof.
  unfold award_commits, partyResult. intros H.
  destruct (Js.truthy_str (PartyBody.phone body)); simpl in *; [|split; congruence].
  destruct (Js.truthy_str (PartyBody.gameId body)); simpl in *; [|split; congruence].
  destruct (normalizePhone (PartyBody.phone body)) as [|c r] eqn:Hk;
    simpl in *; [split; congruence|].
  unfold runTransaction, snap_get_best.
  destruct (players st !! String c r); [|discriminate].
  rewrite H. simpl. split; congruence.
Qed.

(** ** One request at a time *)

(** [/spend] returns the store as it was, or debits an existing document
    and appends the matching event. *)
Lemma spend_cases now body st :
  fst (spend now body st) = st
  ∨ ∃ key a d,
      players st !! key = Some d
      ∧ fst (spend now body st)
        = Store (<[key := Player.mk (Player.name d) (Player.phone d)
                            (Some (Js.or_str (SpendBody.reason body) "spend"))
                            (Some now)
                            (Some (default 0 (Player.coins d) - a))
                            (Player.partyScores d)]> (players st))
                (events st ++ [Event.mk key (Js.or_str (SpendBody.reason body) "spend")
                                        None (- a) now]).
Proof.
  destruct (SpendBody.phone body) as [p|] eqn:Hp;
    [|left; unfold spend; rewrite Hp; reflexivity].
  destruct (SpendBody.amount body) as [a|] eqn:Ha;
    [|left; unfold spend; rewrite Ha; simpl; rewrite orb_true_r; reflexivity].
  destruct (decide (a = 0)) as [->|Ha0];
    [left; unfold spend; rewrite Ha; simpl; rewrite orb_true_r; reflexivity|].
  destruct (decide (normalizePhone (Some p) = "")) as [Hk|Hk].
  { left. unfold spend. rewrite Hp, Hk.
    destruct (_ || _); reflexivity. }
  rewrite (spend_unfold now body st p a Hp Ha Ha0 Hk).
  destruct (_ <? _); [left; reflexivity|].
  destruct (players st !! normalizePhone (Some p)) as [d|] eqn:Hd;
    [|left; reflexivity].
  right. exists (normalizePhone (Some p)), a, d. split; [exact Hd | reflexivity].
Qed.

Lemma scores_of_insert st evs' k d k' g :
  scores_of (Store (<[k := d]> (players st)) evs') k' g
  = if decide (k = k') then Player.partyScores d !! g
    else scores_of st k' g.
Proof.
  unfold scores_of; simpl. rewrite lookup_insert.
  destruct (decide (k = k')); reflexivity.
Qed.

(** Every request leaves the event log and all balances as they were, or
    appends one event and moves the balance of its key by its amount. *)
Lemma handle_ledger_step now c st :
  let st' := fst (handle now c st) in
  (events st' = events st ∧ ∀ k, balance st' k = balance st k)
  ∨ (∃ e, events st' = (events st ++ [e])%list
          ∧ ∀ k, balance st' k = balance st k + credit k e).
Proof.
  destruct c as [body|body|body|phone]; simpl.
  - left. pose proof (register_preserves now body st) as (He & Hb & _). auto.
  - destruct (award_commits body st) eqn:Hc.
    + right. rewrite (partyResult_unfold now body st Hc). simpl.
      eexists. split; [reflexivity|].
      intros k. rewrite balance_insert. unfold credit. simpl.
      destruct (decide (_ = k)) as [<-|]; [|lia].
      simpl. unfold balance.
      destruct (players st !! normalizePhone (PartyBody.phone body)); reflexivity.
    + left. destruct (partyResult_reject now body st Hc) as [-> _]. auto.
  - destruct (spend_cases now body st) as [->|(key & a & d & Hd & ->)]; [auto|].
    right. simpl. eexists. split; [reflexivity|].
    intros k. rewrite balance_insert. unfold credit. simpl.
    destruct (decide (key = k)) as [<-|]; [|lia].
    simpl. unfold balance. rewrite Hd. lia.
  - left. unfold getCoins.
    destruct (negb _); [auto|]. destruct (doc _); auto.
Qed.

Lemma ledger_sum_snoc key evs e :
  ledger_sum key (evs ++ [e]) = ledger_sum key evs + credit key e.
Proof. induction evs as [|e' evs IH]; simpl; lia. Qed.

Lemma handle_consistent now c st :
  consistent st → consistent (fst (handle now c st)).
Proof.
  intros Hst key.
  destruct (handle_ledger_step now c st) as [[He Hb]|(e & He & Hb)].
  - rewrite He, Hb. apply Hst.
  - rewrite He, Hb, ledger_sum_snoc, Hst. reflexivity.
Qed.

Lemma run_consistent cs : ∀ st, consistent st → consistent (run cs st).
Proof.
  induction cs as [|[now c] cs IH]; intros st Hst; simpl; [exact Hst|].
  apply IH, handle_consistent, Hst.
Qed.

(** C2: after any sequence of requests from the empty store, the balance
    of every key is the sum of the amounts of the events logged for that
    key; and each request either leaves the log and every balance as they
    were, or appends exactly one event, whose amount is the change of the
    balance of its key (no other balance changes). *)
Theorem balance_is_ledger_sum cs :
  (∀ key, balance (run cs empty_store) key
          = ledger_sum key (events (run cs empty_store)))
  ∧ (∀ now c st,
       let st' := fst (handle now c st) in
       (events st' = events st ∧ ∀ k, balance st' k = balance st k)
       ∨ (∃ e, events st' = (events st ++ [e])%list
               ∧ ∀ k, balance st' k = balance st k + credit k e)).
Proof.
  split.
  - apply run_consistent. intros key. reflexivity.
  - intros now c st. apply handle_ledger_step.
Qed.

(** ** Scores *)

Lemma getCoins_fst phone st : fst (getCoins phone st) = st.
Proof. unfold getCoins. destruct (negb _); [|destruct (doc _)]; reflexivity. Qed.

(** A request changes the scores of a key and game only when it is an
    award for them that commits; the best score it stores does not depend
    on the one stored before. *)
Lemma handle_scores_step now c st k g :
  scores_of (fst (handle now c st)) k g =
  match award_score st k g c with
  | Some s => Some (Scores.mk s (Z.max 0 s))
  | None => scores_of st k g
  end.
Proof.
  destruct c as [body|body|body|phone]; simpl.
  - apply (register_preserves now body st).
  - destruct (award_commits body st) eqn:Hc; simpl.
    + rewrite (partyResult_unfold now body st Hc). simpl.
      destruct (award_commits_inv body st Hc) as (g' & Hg & _).
      rewrite Hg. simpl. rewrite scores_of_insert.
      destruct (decide (normalizePhone (PartyBody.phone body) = k)) as [<-|Hk].
      * rewrite (bool_decide_eq_true_2 _ eq_refl), andb_true_r. simpl.
        rewrite lookup_insert.
        destruct (decide (g' = g)) as [<-|Hne].
        -- rewrite (bool_decide_eq_true_2 _ eq_refl). reflexivity.
        -- rewrite bool_decide_eq_false_2 by congruence.
           unfold scores_of.
           destruct (players st !! normalizePhone (PartyBody.phone body));
             simpl; [reflexivity | apply lookup_empty].
      * rewrite (bool_decide_eq_false_2 _ Hk), andb_false_r. reflexivity.
    + destruct (partyResult_reject now body st Hc) as [-> _]. reflexivity.
  - destruct (spend_cases now body st) as [->|(key & a & d & Hd & ->)];
      [reflexivity|].
    rewrite scores_of_insert.
    destruct (decide (key = k)) as [<-|]; [|reflexivity].
    simpl. unfold scores_of. rewrite Hd. reflexivity.
  - rewrite getCoins_fst. reflexivity.
Qed.

(** C5 at the failing input: two awards for one key and game, with scores
    10 and then 3, from the empty store.  Both are answered ok and the
    largest score submitted is 10, yet the stored bestScore is 3: the read
    of the stored best through the dotted path finds nothing, so the
    second award stores [max 0 3]. *)
Theorem best_score_forgets_earlier_awards :
  let award1 := PartyResult (PartyBody.mk (Some "5550100") (Some "run")
                                          (Some 10) (Some 5)) in
  let award2 := PartyResult (PartyBody.mk (Some "5550100") (Some "run")
                                          (Some 3) (Some 2)) in
  let st1 := fst (handle 1%nat award1 empty_store) in
  let st2 := fst (handle 2%nat award2 st1) in
  snd (handle 1%nat award1 empty_store) = json_ok
  ∧ snd (handle 2%nat award2 st1) = json_ok
  ∧ st2 = run [(1%nat, award1); (2%nat, award2)] empty_store
  ∧ best_score st1 "5550100" "run" = Some 10
  ∧ max_score [10; 3] = Some 10
  ∧ best_score st2 "5550100" "run" = Some 3
  ∧ last_score st2 "5550100" "run" = Some 3.
Proof. vm_compute. repeat split. Qed.

(** C10: an award that commits stores, for its key and game, the best
    score [max 0 (score || 0)]: the current best is read as 0, so the
    stored best score is at least 0, also when the score submitted is
    negative and whatever the store held before. *)
Theorem award_best_nonneg now body st st' :
  partyResult now body st = (st', json_ok) →
  let key := normalizePhone (PartyBody.phone body) in
  let gameId := default "" (PartyBody.gameId body) in
  ∃ b, best_score st' key gameId = Some b
       ∧ b = Z.max 0 (Js.or_num (PartyBody.score body) 0)
       ∧ 0 ≤ b.
Proof.
  intros H key gameId.
  assert (Hc : award_commits body st = true).
  { destruct (award_commits body st) eqn:Hc; [reflexivity|].
    destruct (partyResult_reject now body st Hc) as [_ Hne].
    rewrite H in Hne. simpl in Hne. congruence. }
  rewrite (partyResult_unfold now body st Hc) in H. injection H as <-.
  fold key gameId. unfold best_score, scores_of. simpl.
  rewrite lookup_insert_eq. simpl. rewrite lookup_insert_eq. simpl.
  eexists. split; [reflexivity|]. split; [reflexivity | lia].
Qed.

Lemma award_best_nonneg_witness :
  let st := Store {[ "5550100" := Player.mk None None None None (Some 5)
                                           {[ "run" := Scores.mk 10 10 ]} ]} [] in
  let body := PartyBody.mk (Some "555-0100") (Some "run") (Some (-5)) None in
  ∃ b, best_score (fst (partyResult 1%nat body st)) "5550100" "run" = Some b
       ∧ b = 0 ∧ 0 ≤ b.
Proof.
  intros st body.
  destruct (award_best_nonneg 1%nat body st (fst (partyResult 1%nat body st)))
    as (b & Hb & Heq & Hge); [reflexivity|].
  exists b. split; [exact Hb|]. split; [exact Heq | exact Hge].
Defined.

(** ** More on the normalizer *)

Lemma replace_non_phone_canonical s :
  all_phone_chars (replace_non_phone s) = true.
Proof.
  induction s as [|c r IH]; simpl; [reflexivity|].
  destruct (is_phone_char c) eqn:Hc; simpl; [rewrite Hc|]; exact IH.
Qed.

Lemma replace_non_phone_id s :
  all_phone_chars s = true → replace_non_phone s = s.
Proof.
  induction s as [|c r IH]; simpl; [reflexivity|].
  intros [Hc Hr]%andb_prop. rewrite Hc, (IH Hr). reflexivity.
Qed.

(** X1: the strings the normalizer leaves unchanged are exactly those made
    of digits and [+] only; every normalized key is one of them. *)
Theorem normalizePhone_fixed_points (s : string) :
  (normalizePhone (Some s) = s ↔ all_phone_chars s = true)
  ∧ all_phone_chars (normalizePhone (Some s)) = true.
Proof.
  unfold normalizePhone; simpl. split; [split|].
  - intros <-. apply replace_non_phone_canonical.
  - apply replace_non_phone_id.
  - apply replace_non_phone_canonical.
Qed.

Lemma normalizePhone_fixed_points_witness :
  normalizePhone (Some "+15551234567") = "+15551234567".
Proof.
  apply (proj2 (proj1 (normalizePhone_fixed_points "+15551234567"))).
  reflexivity.
Defined.

(** X2: normalizing a concatenation is concatenating the normalizations:
    the normalizer works character by character, whatever surrounds a
    character. *)
Theorem normalizePhone_app (s1 s2 : string) :
  normalizePhone (Some (s1 +:+ s2))
  = normalizePhone (Some s1) +:+ normalizePhone (Some s2).
Proof.
  unfold normalizePhone; simpl.
  induction s1 as [|c r IH]; simpl; [reflexivity|].
  destruct (is_phone_char c); simpl; rewrite IH; reflexivity.
Qed.

(** X3: the normalized key is empty exactly when the raw string holds no
    digit and no [+]; and the key is never longer than the raw string. *)
Theorem normalizePhone_empty_iff (s : string) :
  (normalizePhone (Some s) = ""
   ↔ ∀ c, In c (list_ascii_of_string s) → is_phone_char c = false)
  ∧ (String.length (normalizePhone (Some s)) ≤ String.length s)%nat.
Proof.
  unfold normalizePhone; simpl. split.
  - induction s as [|c r IH]; simpl; [tauto|].
    destruct (is_phone_char c) eqn:Hc.
    + split; [discriminate|]. intros H. specialize (H c (or_introl eq_refl)).
      congruence.
    + rewrite IH. split.
      * intros H c' [<-|Hin]; auto.
      * intros H c' Hin. apply H. right. exact Hin.
  - induction s as [|c r IH]; simpl; [lia|].
    destruct (is_phone_char c); simpl; lia.
Qed.

Lemma normalizePhone_empty_iff_witness : normalizePhone (Some "n/a") = "".
Proof.
  apply (proj2 (proj1 (normalizePhone_empty_iff "n/a"))).
  intros c Hin. simpl in Hin.
  destruct Hin as [<-|[<-|[<-|[]]]]; reflexivity.
Defined.

(** ** The gate *)

Lemma handle_not_unauthorized now c st : snd (handle now c st) ≠ unauthorized.
Proof.
  destruct c as [body|body|body|phone]; simpl.
  - unfold register. destruct (negb _); [discriminate|].
    destruct (doc _); [discriminate|]. simpl. discriminate.
  - unfold partyResult. destruct (_ || _); [discriminate|].
    destruct (doc _); [discriminate|].
    destruct (runTransaction _ _) as [e|[st' [e|u]]]; discriminate.
  - unfold spend. destruct (_ || _); [discriminate|].
    destruct (doc _); [discriminate|].
    destruct (runTransaction _ _) as [e|[st' ok]]; [discriminate|].
    destruct (negb ok); discriminate.
  - unfold getCoins. destruct (negb _); [discriminate|].
    destruct (doc _); discriminate.
Qed.

(** X4: with a non-empty secret configured, a gated route answers 401
    exactly when the header, or when the header is missing or empty the
    query parameter, is not the secret (so a wrong header is not rescued
    by a right query parameter), and then the store is untouched; with no
    secret, or an empty one, every request reaches its handler; [/health]
    answers ok without the gate. *)
Theorem serve_gate now st :
  (∀ s h q c, s ≠ "" →
     (snd (serve (Some s) now (Request h q (Api c)) st) = unauthorized
      ↔ provided (Request h q (Api c)) ≠ Some s)
     ∧ (provided (Request h q (Api c)) ≠ Some s →
          fst (serve (Some s) now (Request h q (Api c)) st) = st)
     ∧ (provided (Request h q (Api c)) = Some s →
          serve (Some s) now (Request h q (Api c)) st = handle now c st))
  ∧ (∀ secret h q c, Js.truthy_str secret = false →
       serve secret now (Request h q (Api c)) st = handle now c st)
  ∧ (∀ secret h q, serve secret now (Request h q Health) st = (st, json_ok)).
Proof.
  split; [|split].
  - intros s h q c Hs. unfold serve, requireSecret, provided. simpl.
    destruct s as [|a r]; [congruence|]. simpl.
    set (pr := if Js.truthy_str h then h else q).
    destruct (bool_decide_reflect (pr = Some (String a r))) as [Heq|Hne].
    + split; [|split]; try tauto.
      split; [|tauto]. intros H. exfalso. exact (handle_not_unauthorized _ _ _ H).
    + simpl. tauto.
  - intros secret h q c Hs. unfold serve, requireSecret. simpl.
    rewrite Hs. reflexivity.
  - reflexivity.
Qed.

Lemma serve_gate_witness :
  let st := Store {[ "1" := Player.mk None None None None (Some 9) ∅ ]} [] in
  let c := Spend (SpendBody.mk (Some "1") (Some 4) None) in
  serve (Some "s3cret") 1%nat (Request (Some "guess") (Some "s3cret") (Api c)) st
  = (st, unauthorized)
  ∧ serve (Some "s3cret") 1%nat (Request None (Some "s3cret") (Api c)) st
    = handle 1%nat c st.
Proof.
  intros st c.
  destruct (proj1 (serve_gate 1%nat st) "s3cret" (Some "guess") (Some "s3cret") c
              ltac:(discriminate)) as (H1 & H2 & _).
  destruct (proj1 (serve_gate 1%nat st) "s3cret" None (Some "s3cret") c
              ltac:(discriminate)) as (_ & _ & H3).
  split.
  - apply injective_projections; simpl.
    + apply H2. discriminate.
    + apply H1. discriminate.
  - apply H3. reflexivity.
Defined.

(** ** The shape of a step *)

Lemma normalizePhone_canonical p :
  normalizePhone p ≠ "" → canonical_key (normalizePhone p).
Proof. intros H. split; [exact H | apply replace_non_phone_canonical]. Qed.

(** [/spend] with its key: the store is returned as it was, or an existing
    document is debited, one event is appended and the answer is ok. *)
Lemma spend_cases_key now body st :
  fst (spend now body st) = st
  ∨ ∃ a d,
      let key := normalizePhone (SpendBody.phone body) in
      key ≠ ""
      ∧ SpendBody.amount body = Some a
      ∧ a ≤ balance st key
      ∧ players st !! key = Some d
      ∧ spend now body st
        = (Store (<[key := Player.mk (Player.name d) (Player.phone d)
                            (Some (Js.or_str (SpendBody.reason body) "spend"))
                            (Some now)
                            (Some (default 0 (Player.coins d) - a))
                            (Player.partyScores d)]> (players st))
                 (events st ++ [Event.mk key (Js.or_str (SpendBody.reason body) "spend")
                                         None (- a) now]),
           json_ok).
Proof.
  destruct (SpendBody.phone body) as [p|] eqn:Hp;
    [|left; unfold spend; rewrite Hp; reflexivity].
  destruct (SpendBody.amount body) as [a|] eqn:Ha;
    [|left; unfold spend; rewrite Ha; simpl; rewrite orb_true_r; reflexivity].
  destruct (decide (a = 0)) as [->|Ha0];
    [left; unfold spend; rewrite Ha; simpl; rewrite orb_true_r; reflexivity|].
  destruct (decide (normalizePhone (Some p) = "")) as [Hk|Hk].
  { left. unfold spend. rewrite Hp, Hk. destruct (_ || _); reflexivity. }
  rewrite (spend_unfold now body st p a Hp Ha Ha0 Hk).
  destruct (Z.ltb_spec (balance st (normalizePhone (Some p))) a) as [|Hge];
    [left; reflexivity|].
  destruct (players st !! normalizePhone (Some p)) as [d|] eqn:Hd;
    [|left; reflexivity].
  right. exists a, d. simpl. rewrite Hd. auto.
Qed.

(** A request returns the store as it was, or answers ok after writing one
    document at a canonical key and appending at most one event, of that
    key. *)
Lemma handle_shape now c st :
  fst (handle now c st) = st
  ∨ ∃ key d' evs',
      canonical_key key
      ∧ snd (handle now c st) = json_ok
      ∧ fst (handle now c st) = Store (<[key := d']> (players st)) evs'
      ∧ (Player.phone d' = Some key
         ∨ Player.phone d' = Player.phone (default Player.empty (players st !! key)))
      ∧ (evs' = events st
         ∨ ∃ e, evs' = (events st ++ [e])%list ∧ Event.phone e = key).
Proof.
  destruct c as [body|body|body|phone]; simpl.
  - destruct (Js.truthy_str (RegisterBody.phone body)) eqn:Hp;
      [|left; unfold register; rewrite Hp; reflexivity].
    destruct (decide (normalizePhone (RegisterBody.phone body) = "")) as [Hk|Hk];
      [left; unfold register; rewrite Hp, Hk; reflexivity|].
    right. rewrite (register_unfold now body st Hp Hk). simpl.
    do 3 eexists. split; [exact (normalizePhone_canonical _ Hk)|].
    split; [reflexivity|]. split; [reflexivity|]. simpl. auto.
  - destruct (award_commits body st) eqn:Hc;
      [|left; apply (partyResult_reject now body st Hc)].
    destruct (award_commits_inv body st Hc) as (g & _ & _ & _ & Hk & _).
    right. rewrite (partyResult_unfold now body st Hc). simpl.
    do 3 eexists. split; [exact (normalizePhone_canonical _ Hk)|].
    split; [reflexivity|]. split; [reflexivity|]. simpl. split; [auto|].
    right. eexists. split; reflexivity.
  - destruct (spend_cases_key now body st) as [H|(a & d & Hk & _ & _ & Hd & H)];
      [left; exact H|].
    right. rewrite H. simpl.
    do 3 eexists. split; [exact (normalizePhone_canonical _ Hk)|].
    split; [reflexivity|]. split; [reflexivity|]. simpl. rewrite Hd. simpl.
    split; [auto|]. right. eexists. split; reflexivity.
  - left. apply getCoins_fst.
Qed.

(** What the application does to the store is what one handler does, or
    nothing. *)
Lemma serve_fst secret now req st :
  fst (serve secret now req st) = st
  ∨ ∃ c, serve secret now req st = handle now c st.
Proof.
  unfold serve. destruct (target req) as [|c]; [left; reflexivity|].
  destruct (requireSecret_cases secret (x_bin_secret req) (query_secret req)
              (handle now c) st) as [->| ->]; [right; eauto | left; reflexivity].
Qed.

Lemma serve_all_invariant (P : store → Prop) :
  (∀ now c st, P st → P (fst (handle now c st))) →
  ∀ secret reqs st, P st → P (serve_all secret reqs st).
Proof.
  intros Hstep secret reqs.
  induction reqs as [|[now req] reqs IH]; intros st Hst; simpl; [exact Hst|].
  apply IH. destruct (serve_fst secret now req st) as [->|[c ->]]; auto.
Qed.

(** X5: a request that is not answered ok (400, 401 or 500) leaves every
    player document and the event log as they were: a failed request
    writes nothing. *)
Theorem failure_writes_nothing secret now req st :
  snd (serve secret now req st) ≠ json_ok →
  fst (serve secret now req st) = st.
Proof.
  intros Hok.
  destruct (serve_fst secret now req st) as [H|[c H]]; [exact H|].
  rewrite H in *.
  destruct (handle_shape now c st) as [H'|(k & d' & evs' & _ & Hr & _)];
    [exact H' | contradiction].
Qed.

Lemma failure_writes_nothing_witness :
  let st := Store {[ "1" := Player.mk None None None None (Some 3) ∅ ]} [] in
  let req := Request None None (Api (Spend (SpendBody.mk (Some "1") (Some 4) None))) in
  fst (serve None 1%nat req st) = st.
Proof.
  intros st req.
  apply (failure_writes_nothing None 1%nat req st); discriminate.
Defined.

(** X6: whatever the configured secret and whatever requests arrive
    (authorised or not, accepted or not), the balance of every key stays
    the sum of the amounts of the events logged for it. *)
Theorem serve_all_ledger secret reqs key :
  balance (serve_all secret reqs empty_store) key
  = ledger_sum key (events (serve_all secret reqs empty_store)).
Proof.
  apply (serve_all_invariant consistent).
  - intros now c st. apply handle_consistent.
  - intros k. reflexivity.
Qed.

(** ** Keys *)

Lemma handle_well_keyed now c st :
  well_keyed st → well_keyed (fst (handle now c st)).
Proof.
  intros [Hp He].
  destruct (handle_shape now c st)
    as [->|(key & d' & evs' & Hk & _ & -> & Hph & Hev)]; [split; assumption|].
  split; simpl.
  - intros k d. rewrite lookup_insert.
    destruct (decide (key = k)) as [<-|]; [|apply Hp].
    intros [= <-]. split; [exact Hk|].
    destruct Hph as [->| ->]; [auto|].
    destruct (players st !! key) as [d0|] eqn:Hd; simpl; [|auto].
    apply (Hp key d0 Hd).
  - assert (Hold : ∀ e, e ∈ events st →
              canonical_key (Event.phone e)
              ∧ is_Some (<[key := d']> (players st) !! Event.phone e)).
    { intros e Hin. destruct (He e Hin) as [Hc Hs]. split; [exact Hc|].
      rewrite lookup_insert. destruct (decide (key = Event.phone e)); eauto. }
    destruct Hev as [->|(e0 & -> & He0)]; [exact Hold|].
    intros e [Hin|Hin%list_elem_of_singleton]%elem_of_app; [apply Hold, Hin|].
    subst e. rewrite He0. split; [exact Hk|].
    rewrite lookup_insert_eq. eauto.
Qed.

(** X7: in every store the application reaches from the empty store, each
    player document sits under a non-empty key made of digits and [+]
    only, its [phone] field, when set, is that key, and each event carries
    such a key and belongs to a stored player. *)
Theorem serve_all_well_keyed secret reqs :
  well_keyed (serve_all secret reqs empty_store).
Proof.
  apply (serve_all_invariant well_keyed).
  - apply handle_well_keyed.
  - split.
    + intros k d. simpl. rewrite lookup_empty. discriminate.
    + intros e Hin. simpl in Hin. apply elem_of_nil in Hin. contradiction.
Qed.

Lemma handle_keeps now c st :
  events st `prefix_of` events (fst (handle now c st))
  ∧ dom (players st) ⊆ dom (players (fst (handle now c st))).
Proof.
  destruct (handle_shape now c st)
    as [->|(key & d' & evs' & _ & _ & -> & _ & Hev)]; [split; reflexivity|].
  simpl. split.
  - destruct Hev as [->|(e & -> & _)]; [reflexivity | apply prefix_app_r; reflexivity].
  - rewrite dom_insert_L. apply union_subseteq_r.
Qed.

(** X8: the event log only grows at its end and no player document is
    ever removed: the events of any store are a prefix of the events after
    any further requests, and every stored key stays stored. *)
Theorem serve_all_keeps secret reqs st :
  events st `prefix_of` events (serve_all secret reqs st)
  ∧ dom (players st) ⊆ dom (players (serve_all secret reqs st)).
Proof.
  apply (serve_all_invariant
           (λ st', events st `prefix_of` events st'
                   ∧ dom (players st) ⊆ dom (players st'))).
  - intros now c st' [He Hd].
    destruct (handle_keeps now c st') as [He' Hd'].
    split; [etrans; eassumption | set_solver].
  - split; reflexivity.
Qed.

(** X9: [/spend] for a key that has no document never creates one: a
    positive amount is answered "insufficient funds", a negative amount
    ends in the catch branch (the update finds no document), and the store
    is returned as it was either way. *)
Theorem spend_unknown_player now body st p a :
  SpendBody.phone body = Some p →
  SpendBody.amount body = Some a →
  normalizePhone (Some p) ≠ "" →
  players st !! normalizePhone (Some p) = None →
  (0 < a → spend now body st = (st, bad_request "insufficient funds"))
  ∧ (a < 0 → spend now body st = (st, server_error NotFound))
  ∧ fst (spend now body st) = st.
Proof.
  intros Hp Ha Hk Hd.
  assert (Hb : balance st (normalizePhone (Some p)) = 0)
    by (unfold balance; rewrite Hd; reflexivity).
  destruct (decide (a = 0)) as [->|Ha0].
  { repeat split; try lia. unfold spend. rewrite Ha. simpl.
    rewrite orb_true_r. reflexivity. }
  rewrite (spend_unfold now body st p a Hp Ha Ha0 Hk), Hb, Hd.
  destruct (Z.ltb_spec 0 a); repeat split; intros; try lia; reflexivity.
Qed.

Lemma spend_unknown_player_witness :
  spend 1%nat (SpendBody.mk (Some "42") (Some (-3)) None) empty_store
  = (empty_store, server_error NotFound).
Proof.
  apply (spend_unknown_player 1%nat (SpendBody.mk (Some "42") (Some (-3)) None)
           empty_store "42" (-3));
    [reflexivity | reflexivity | discriminate | reflexivity | lia].
Defined.

(** ** Scores over time *)

Lemma handle_last_le_best now c st :
  last_le_best st → last_le_best (fst (handle now c st)).
Proof.
  intros Hst k g sc. rewrite handle_scores_step.
  destruct (award_score st k g c) as [s|]; [|apply Hst].
  intros [= <-]. simpl. lia.
Qed.

(** X11: in every store the application reaches from the empty store, the
    last score of a game is at most its best score. *)
Theorem serve_all_last_le_best secret reqs :
  last_le_best (serve_all secret reqs empty_store).
Proof.
  apply (serve_all_invariant last_le_best).
  - apply handle_last_le_best.
  - intros k g sc. unfold scores_of. simpl. rewrite lookup_empty. discriminate.
Qed.

(** ** Balances over time *)

Lemma serve_fst_target secret now req st :
  fst (serve secret now req st) = st
  ∨ ∃ c, target req = Api c ∧ serve secret now req st = handle now c st.
Proof.
  unfold serve. destruct (target req) as [|c]; [left; reflexivity|].
  destruct (requireSecret_cases secret (x_bin_secret req) (query_secret req)
              (handle now c) st) as [->| ->]; [right; eauto | left; reflexivity].
Qed.

Lemma handle_balances_nonneg now c st :
  credits_nonneg (Api c) = true →
  balances_nonneg st → balances_nonneg (fst (handle now c st)).
Proof.
  intros Hc Hst k. destruct c as [body|body|body|phone]; simpl in *.
  - rewrite (proj1 (proj2 (register_preserves now body st))). apply Hst.
  - destruct (award_commits body st) eqn:Hcm.
    + rewrite (partyResult_unfold now body st Hcm). simpl.
      rewrite balance_insert. destruct (decide _) as [<-|]; [|apply Hst].
      simpl. apply Z.leb_le in Hc.
      specialize (Hst (normalizePhone (PartyBody.phone body))).
      unfold balance in Hst.
      destruct (players st !! normalizePhone (PartyBody.phone body)); simpl; lia.
    + rewrite (proj1 (partyResult_reject now body st Hcm)). apply Hst.
  - destruct (spend_cases_key now body st) as [->|(a & d & _ & _ & Hle & Hd & ->)];
      [apply Hst|].
    simpl. rewrite balance_insert. destruct (decide _) as [<-|]; [|apply Hst].
    simpl. unfold balance in Hle. rewrite Hd in Hle. lia.
  - rewrite getCoins_fst. apply Hst.
Qed.

(** X12: as long as no award credits a negative amount of coins, no
    balance is ever negative, whatever is spent: [/spend] never takes a
    balance below zero, even for a negative amount. *)
Theorem serve_all_balances_nonneg secret reqs :
  forallb (λ nr, credits_nonneg (target nr.2)) reqs = true →
  balances_nonneg (serve_all secret reqs empty_store).
Proof.
  assert (H : ∀ st, forallb (λ nr, credits_nonneg (target nr.2)) reqs = true →
                    balances_nonneg st →
                    balances_nonneg (serve_all secret reqs st)).
  { induction reqs as [|[now req] reqs IH]; intros st Hall Hst; simpl;
      [exact Hst|].
    simpl in Hall. apply andb_prop in Hall as [Hreq Hall].
    apply (IH _ Hall).
    destruct (serve_fst_target secret now req st) as [->|(c & Ht & ->)];
      [exact Hst|].
    rewrite Ht in Hreq. apply handle_balances_nonneg; assumption. }
  intros Hall. apply (H _ Hall). intros k. reflexivity.
Qed.

Lemma serve_all_balances_nonneg_witness :
  let reqs :=
    [(1%nat, Request None None
               (Api (PartyResult (PartyBody.mk (Some "1") (Some "run") None (Some 2)))));
     (2%nat, Request None None
               (Api (Spend (SpendBody.mk (Some "1") (Some (-3)) None))))] in
  0 ≤ balance (serve_all None reqs empty_store) "1".
Proof.
  intros reqs. apply (serve_all_balances_nonneg None reqs). reflexivity.
Defined.

Lemma award_commits_intro p g sc cs st :
  g ≠ "" → normalizePhone (Some p) ≠ "" →
  players st !! normalizePhone (Some p) = None
  ∨ valid_field_path (bestPath g) = true →
  award_commits (PartyBody.mk (Some p) (Some g) sc cs) st = true.
Proof.
  intros Hg Hk Hv. unfold award_commits.
  cbn [PartyBody.phone PartyBody.gameId].
  rewrite (normalizePhone_nonempty _ Hk), (truthy_str_some g Hg),
    (truthy_str_some _ Hk).
  change (default "" (Some g)) with g.
  destruct (players st !! normalizePhone (Some p)); [|reflexivity].
  destruct Hv as [Hv|Hv]; [discriminate|]. rewrite Hv. reflexivity.
Qed.

(** X13: an award of a positive amount of coins followed by a spend of
    the same amount for the same key, in a store where that balance is not
    negative, is accepted and brings every balance back to what it was,
    provided the award commits: the key has no document yet, or the game
    makes a well-formed field path. *)
Theorem award_then_spend now1 now2 st p q g sc reason a :
  g ≠ "" →
  normalizePhone (Some p) ≠ "" →
  players st !! normalizePhone (Some p) = None
  ∨ valid_field_path (bestPath g) = true →
  normalizePhone (Some q) = normalizePhone (Some p) →
  0 < a →
  0 ≤ balance st (normalizePhone (Some p)) →
  let st1 := fst (partyResult now1 (PartyBody.mk (Some p) (Some g) sc (Some a)) st) in
  let r := spend now2 (SpendBody.mk (Some q) (Some a) reason) st1 in
  snd r = json_ok ∧ ∀ k, balance (fst r) k = balance st k.
Proof.
  intros Hg Hk Hv Hq Ha Hb st1 r. subst r st1.
  rewrite (partyResult_unfold now1 _ st
             (award_commits_intro p g sc (Some a) st Hg Hk Hv)).
  simpl fst. simpl PartyBody.phone. simpl PartyBody.coins.
  assert (Ha0 : Js.or_num (Some a) 0 = a).
  { simpl. destruct (Z.eqb_spec a 0); [lia | reflexivity]. }
  simpl in Ha0. rewrite Ha0.
  set (key := normalizePhone (Some p)) in *.
  set (st1 := Store _ _).
  assert (Hb1 : balance st1 key = balance st key + a).
  { unfold st1. rewrite balance_insert, decide_True by reflexivity.
    simpl. unfold balance. destruct (players st !! key); reflexivity. }
  rewrite (spend_unfold now2 (SpendBody.mk (Some q) (Some a) reason) st1 q a
             eq_refl eq_refl ltac:(lia) ltac:(rewrite Hq; exact Hk)).
  rewrite Hq. fold key. rewrite Hb1.
  destruct (Z.ltb_spec (balance st key + a) a); [lia|].
  assert (Hd : ∃ d, players st1 !! key = Some d
                    ∧ default 0 (Player.coins d) = balance st key + a).
  { unfold st1. simpl. rewrite lookup_insert_eq. eexists. split; [reflexivity|].
    simpl. unfold balance. destruct (players st !! key); reflexivity. }
  destruct Hd as (d & Hd & Hc). rewrite Hd. cbn [fst snd]. split; [reflexivity|].
  intros k. rewrite balance_insert.
  destruct (decide (key = k)) as [<-|Hne].
  - simpl. lia.
  - unfold st1. rewrite balance_insert, decide_False by exact Hne. reflexivity.
Qed.

Lemma award_then_spend_witness :
  let st := Store {[ "5550100" := Player.mk None None None None (Some 2) ∅ ]} [] in
  let st1 := fst (partyResult 1%nat (PartyBody.mk (Some "555-0100") (Some "run")
                                                 (Some 3) (Some 5)) st) in
  let r := spend 2%nat (SpendBody.mk (Some "5550100") (Some 5) None) st1 in
  snd r = json_ok ∧ ∀ k, balance (fst r) k = balance st k.
Proof.
  intros st.
  apply (award_then_spend 1%nat 2%nat st "555-0100" "5550100" "run"
           (Some 3) None 5);
    [discriminate | discriminate | right; reflexivity | reflexivity | lia
    | vm_compute; discriminate].
Defined.

(** ** Raw phones and keys *)

(** X14: two non-empty raw phones with the same normalized key are
    interchangeable: each handler returns the same store and the same
    answer for one as for the other. *)
Theorem same_key_same_effect now st p1 p2 :
  p1 ≠ "" → p2 ≠ "" →
  normalizePhone (Some p1) = normalizePhone (Some p2) →
  (∀ n, register now (RegisterBody.mk n (Some p1)) st
        = register now (RegisterBody.mk n (Some p2)) st)
  ∧ (∀ g sc cs, partyResult now (PartyBody.mk (Some p1) g sc cs) st
                = partyResult now (PartyBody.mk (Some p2) g sc cs) st)
  ∧ (∀ a r, spend now (SpendBody.mk (Some p1) a r) st
            = spend now (SpendBody.mk (Some p2) a r) st)
  ∧ getCoins (Some p1) st = getCoins (Some p2) st.
Proof.
  intros H1 H2 Hk.
  pose proof (truthy_str_some p1 H1) as T1.
  pose proof (truthy_str_some p2 H2) as T2.
  repeat split.
  - intros n. unfold register.
    cbn [RegisterBody.phone RegisterBody.name]. rewrite T1, T2, Hk. reflexivity.
  - intros g sc cs. unfold partyResult.
    cbn [PartyBody.phone PartyBody.gameId PartyBody.score PartyBody.coins].
    rewrite T1, T2, Hk. reflexivity.
  - intros a r. unfold spend.
    cbn [SpendBody.phone SpendBody.amount SpendBody.reason].
    rewrite T1, T2, Hk. reflexivity.
  - unfold getCoins. rewrite Hk. reflexivity.
Qed.

Lemma same_key_same_effect_witness :
  spend 1%nat (SpendBody.mk (Some "+1 (555) 123-4567") (Some 2) None) empty_store
  = spend 1%nat (SpendBody.mk (Some "+15551234567") (Some 2) None) empty_store.
Proof.
  apply (same_key_same_effect 1%nat empty_store "+1 (555) 123-4567" "+15551234567");
    [discriminate | discriminate | reflexivity].
Defined.

(** X15: a non-empty phone that holds no digit and no [+] ends every
    mutating handler in its catch branch (status 500), with the store
    returned as it was, once the other required field is given; only
    [/coins] answers such a phone with 400 "phone required". *)
Theorem empty_key_ends_in_catch now st p :
  p ≠ "" →
  normalizePhone (Some p) = "" →
  (∀ n, register now (RegisterBody.mk n (Some p)) st
        = (st, server_error InvalidResourcePath))
  ∧ (∀ g sc cs, g ≠ "" →
       partyResult now (PartyBody.mk (Some p) (Some g) sc cs) st
       = (st, server_error InvalidResourcePath))
  ∧ (∀ a r, a ≠ 0 →
       spend now (SpendBody.mk (Some p) (Some a) r) st
       = (st, server_error InvalidResourcePath))
  ∧ getCoins (Some p) st = (st, bad_request "phone required").
Proof.
  intros Hp Hk. pose proof (truthy_str_some p Hp) as T.
  repeat split.
  - intros n. unfold register. cbn [RegisterBody.phone]. rewrite T, Hk. reflexivity.
  - intros g sc cs Hg. unfold partyResult. cbn [PartyBody.phone PartyBody.gameId].
    rewrite T, (truthy_str_some g Hg), Hk. reflexivity.
  - intros a r Ha. unfold spend. cbn [SpendBody.phone SpendBody.amount].
    rewrite T, Hk. simpl. destruct (Z.eqb_spec a 0); [contradiction | reflexivity].
  - unfold getCoins. rewrite Hk. reflexivity.
Qed.

Lemma empty_key_ends_in_catch_witness :
  spend 1%nat (SpendBody.mk (Some "n/a") (Some 2) None) empty_store
  = (empty_store, server_error InvalidResourcePath).
Proof.
  apply (empty_key_ends_in_catch 1%nat empty_store "n/a");
    [discriminate | reflexivity | discriminate].
Defined.

(** ** Registration again *)

(** X16: of two registrations of the same key the later one wins
    entirely: registering after an earlier registration gives the store
    that the later registration alone gives.  In particular repeating a
    registration changes nothing. *)
Theorem register_last_wins now1 now2 body1 body2 st :
  Js.truthy_str (RegisterBody.phone body2) = true →
  normalizePhone (RegisterBody.phone body1) = normalizePhone (RegisterBody.phone body2) →
  fst (register now2 body2 (fst (register now1 body1 st)))
  = fst (register now2 body2 st).
Proof.
  intros T2 Hk.
  destruct (decide (normalizePhone (RegisterBody.phone body2) = "")) as [He|Hne].
  - assert (H1 : fst (register now1 body1 st) = st).
    { unfold register. destruct (negb _); [reflexivity|].
      rewrite Hk, He. reflexivity. }
    rewrite H1. reflexivity.
  - assert (T1 : Js.truthy_str (RegisterBody.phone body1) = true)
      by (apply normalizePhone_nonempty; rewrite Hk; exact Hne).
    rewrite (register_unfold now1 body1 st T1 ltac:(rewrite Hk; exact Hne)).
    rewrite !(register_unfold now2 body2 _ T2 Hne).
    rewrite Hk. simpl. rewrite lookup_insert_eq. simpl.
    rewrite insert_insert_eq. reflexivity.
Qed.

Lemma register_last_wins_witness :
  fst (register 2%nat (RegisterBody.mk (Some "Ann") (Some "5550100"))
         (fst (register 1%nat (RegisterBody.mk None (Some "555-0100")) empty_store)))
  = fst (register 2%nat (RegisterBody.mk (Some "Ann") (Some "5550100")) empty_store).
Proof.
  apply (register_last_wins 1%nat 2%nat (RegisterBody.mk None (Some "555-0100"))
           (RegisterBody.mk (Some "Ann") (Some "5550100")) empty_store);
    reflexivity.
Defined.

(** ** Awards *)

(** X17: [/partyResult] answers ok exactly when phone and gameId are
    non-empty, the key is not empty and, if the key already has a
    document, the game makes a well-formed field path; score and coins
    play no part.  It then adds [coins || 0] to the balance of the key,
    with no check of its sign or of the balance, and a [/coins] query for
    the same key reads the new balance, also when the key was unknown
    before.  For a key that has a document and a game that makes no
    well-formed field path, the answer is 500 and nothing is written. *)
Theorem partyResult_ok_iff now body st :
  (snd (partyResult now body st) = json_ok
   ↔ ∃ p g, PartyBody.phone body = Some p ∧ PartyBody.gameId body = Some g
            ∧ g ≠ "" ∧ normalizePhone (Some p) ≠ ""
            ∧ (players st !! normalizePhone (Some p) = None
               ∨ valid_field_path (bestPath g) = true))
  ∧ (snd (partyResult now body st) = json_ok →
     let key := normalizePhone (PartyBody.phone body) in
     let st' := fst (partyResult now body st) in
     balance st' key = balance st key + Js.or_num (PartyBody.coins body) 0
     ∧ ∀ q, normalizePhone q = key →
            snd (getCoins q st') = json_coins (balance st' key))
  ∧ (∀ p g d, PartyBody.phone body = Some p → PartyBody.gameId body = Some g →
       g ≠ "" → normalizePhone (Some p) ≠ "" →
       players st !! normalizePhone (Some p) = Some d →
       valid_field_path (bestPath g) = false →
       partyResult now body st = (st, server_error InvalidFieldPath)).
Proof.
  split; [|split].
  - destruct (award_commits body st) eqn:Hc.
    + destruct (award_commits_inv body st Hc) as (g & Hg & Hne & Hp & Hk & Hv).
      rewrite (partyResult_unfold now body st Hc). cbn [fst snd].
      split; [intros _|reflexivity].
      apply truthy_str_nonempty in Hp as (p & Hp & _).
      exists p, g. rewrite Hp in Hk, Hv. auto.
    + destruct (partyResult_reject now body st Hc) as [_ Hr].
      split; [intros H; contradiction|].
      intros (p & g & Hp & Hg & Hne & Hk & Hv). exfalso.
      assert (Hc' : award_commits body st = true).
      { destruct body as [ph gi sc cs]. simpl in Hp, Hg. subst ph gi.
        apply award_commits_intro; assumption. }
      congruence.
  - destruct (award_commits body st) eqn:Hc;
      [|destruct (partyResult_reject now body st Hc) as [_ Hr];
        intros H; contradiction].
    destruct (award_commits_inv body st Hc) as (g & Hg & Hne & Hp & Hk & Hv).
    rewrite (partyResult_unfold now body st Hc). cbn [fst snd].
    intros _. cbv zeta.
    set (key := normalizePhone (PartyBody.phone body)) in *.
    set (st' := Store _ _).
    assert (Hb : balance st' key
                 = balance st key + Js.or_num (PartyBody.coins body) 0).
    { unfold st'. rewrite balance_insert, decide_True by reflexivity.
      simpl. unfold balance. destruct (players st !! key); reflexivity. }
    split; [exact Hb|].
    intros q Hq. unfold getCoins. rewrite Hq.
    rewrite (truthy_str_some key Hk), (doc_nonempty key Hk). cbn [negb snd].
    unfold balance, st'. cbn [players]. rewrite lookup_insert_eq.
    rewrite or_num_zero. reflexivity.
  - intros p g d Hp Hg Hne Hk Hd Hv.
    unfold partyResult. rewrite Hp, Hg.
    rewrite (normalizePhone_nonempty _ Hk), (truthy_str_some g Hne).
    simpl negb. simpl orb. cbv iota.
    rewrite (doc_nonempty _ Hk). unfold runTransaction, snap_get_best.
    change (default "" (Some g)) with g. rewrite Hd, Hv. reflexivity.
Qed.

Lemma partyResult_ok_iff_witness :
  let body := PartyBody.mk (Some "42") (Some "run") None (Some (-3)) in
  balance (fst (partyResult 1%nat body empty_store)) "42" = 0 + -3.
Proof.
  intros body.
  apply (proj1 (proj2 (partyResult_ok_iff 1%nat body empty_store))). reflexivity.
Defined.
